(** * Skipchain client: chain verification and tip retrieval

    A shallow embedding of [SkipchainRPC]
    (external/js/cothority/src/skipchain/skipchain-rpc.ts): the chain verifier
    [verifyChain], the single-block fetches [getSkipBlock] and
    [getSkipBlockByIndex], [getUpdateChain], and the failover search
    [getLatestBlock].

    Buffers are byte lists, a JavaScript [Error] is its message, a promise is
    its settled value.  The network and the logger are threaded explicitly as
    a [World].  [getLatestBlock] calls itself without a bound in the source, so
    its embedding takes the number of allowed self-calls as fuel and answers
    [None] when that budget is exhausted. *)

From Stdlib Require Import List String Bool Arith Lia.
From Stdlib.Strings Require Import Byte.
Import ListNotations.
Open Scope string_scope.
Open Scope list_scope.

(** ** Buffers *)

Definition Buffer := list byte.

(** [Buffer.equals]: same length and same bytes. *)
Fixpoint equals (a b : Buffer) : bool :=
  match a, b with
  | [], [] => true
  | x :: a', y :: b' => Byte.eqb x y && equals a' b'
  | _, _ => false
  end.

(** ** Data model *)

(** Modelled from the spec: the classes [ServerIdentity] and [Roster] of
    network/proto are not part of the sources at hand; a server identity is a
    public key and a network address, a roster an ordered sequence of them. *)
Definition Point := Buffer.

Record ServerIdentity := mkServerIdentity {
  public : Point;
  address : string
}.

Record Roster := mkRoster {
  members : list ServerIdentity   (* the field [list] of the source *)
}.

(** Modelled from the spec: the class [ForwardLink] of skipchain/skipblock is
    not part of the sources at hand; a link has a source hash, a destination
    hash, an optional replacement roster and an aggregate signature. *)
Record ForwardLink := mkForwardLink {
  from : Buffer;
  to : Buffer;
  newRoster : option Roster;
  signature : Buffer
}.

(** Modelled from the spec: the class [SkipBlock] of skipchain/skipblock is
    not part of the sources at hand; the fields are those the spec lists, with
    the names the verifier uses for [hash], [roster] and [forwardLinks]. *)
Record SkipBlock := mkSkipBlock {
  hash : Buffer;
  index : nat;
  maxHeight : nat;
  baseHeight : nat;
  backlinks : list Buffer;
  genesis : Buffer;
  data : Buffer;
  roster : Roster;
  forwardLinks : list ForwardLink
}.

(** A JavaScript [Error], identified by its message. *)
Record Error := mkError { message : string }.

(** A settled promise. *)
Inductive Promise (A : Type) : Type :=
| Resolved (a : A)
| Rejected (e : Error).
Arguments Resolved {A} a.
Arguments Rejected {A} e.

(** A [WebSocketConnection]: the address it was opened on and the service. *)
Record Connection := mkConnection {
  getURL : string;
  service : string
}.

Definition serviceName : string := "Skipchain".

(** Replies of the service. *)
Record GetUpdateChainReply := mkGetUpdateChainReply {
  update : list SkipBlock
}.

Record GetSingleBlockByIndexReply := mkGetSingleBlockByIndexReply {
  skipblock : SkipBlock;
  links : list ForwardLink
}.

(** [Array.prototype.pop]: the last element, [None] for [undefined]. *)
Fixpoint pop {A : Type} (l : list A) : option A :=
  match l with
  | [] => None
  | [x] => Some x
  | _ :: l' => pop l'
  end.

(** The messages of the errors the client creates. *)
Definition errNoBlock : Error := mkError "no block returned in the chain".
Definition errFirstID : Error := mkError "the first ID is not the one we have".
Definition errBlockHash : Error := mkError "invalid block hash".
Definition errNoForwardLink : Error :=
  mkError "no forward link included in the skipblock".
Definition errNoAssociatedLink : Error :=
  mkError "no forward link associated with the next block".
Definition errInvalidLink (err : Error) : Error :=
  mkError ("invalid link: " ++ message err)%string.
Definition errHashMismatch : Error :=
  mkError "invalid block: hash does not match".
Definition errNoConode : Error := mkError "no conode has the latest block".
Definition errInvalidChain (err : Error) : Error :=
  mkError ("invalid chain received: " ++ message err)%string.
(** What the engine raises when property [prop] is read on [undefined]. *)
Definition errTypeError (prop : string) : Error :=
  mkError ("Cannot read properties of undefined (reading '" ++ prop ++ "')")%string.

(** ** Collaborators *)

(** [SkipBlock.computeHash], whose class is not part of the sources at hand. *)
Class Hashing := {
  computeHash : SkipBlock -> Buffer
}.

(** [ForwardLink.verify] ([None] for [null], otherwise the reason) and
    [Roster.getServicePublics], whose classes are not part of the sources at
    hand either. *)
Class Signing := {
  verify : ForwardLink -> list Point -> option Error;
  getServicePublics : Roster -> string -> list Point
}.

(** The [IConnection] interface over a network in state [Net]: a send moves
    the network to a new state and either throws or yields a reply of the
    expected shape. *)
Class IConnection (Net : Type) := {
  sendGetSingleBlock :
    Net -> Connection -> Buffer -> Net * (Error + SkipBlock);
  sendGetSingleBlockByIndex :
    Net -> Connection -> Buffer -> nat -> Net * (Error + GetSingleBlockByIndexReply);
  sendGetUpdateChain :
    Net -> Connection -> Buffer -> Net * (Error + GetUpdateChainReply)
}.

(** A call of [Logger.lvl3] is recorded by the arguments it was given: a
    string, or an [Error] object. *)
Inductive LogArg : Type :=
| LogString (s : string)
| LogError (e : Error).

Definition LogLine := list LogArg.

(** The network state together with the calls of [Logger.lvl3] so far,
    oldest first. *)
Record World (Net : Type) := mkWorld {
  net : Net;
  logged : list LogLine
}.
Arguments mkWorld {Net} net logged.
Arguments net {Net} w.
Arguments logged {Net} w.

Definition lvl3 {Net : Type} (n : Net) (w : World Net) (line : LogLine) : World Net :=
  mkWorld n (logged w ++ [line]).

(** [srvid.getWebSocketAddress()]: the address stands for the one derived
    from it. *)
Definition getWebSocketAddress (srvid : ServerIdentity) : string := address srvid.

(** The constructor: one connection per roster member, in roster order. *)
Definition connect (r : Roster) : list Connection :=
  map (fun srvid => mkConnection (getWebSocketAddress srvid) serviceName) (members r).

(** ** The client *)

(** *** verifyChain *)

(** The [for] loop from index [i] on, with [prev = blocks[i-1]] and [rest]
    the blocks from index [i]. *)
Fixpoint verifyLinks `{Hashing} `{Signing} (prev : SkipBlock) (rest : list SkipBlock)
  : option Error :=
  match rest with
  | [] => None
  | curr :: rest' =>
      if negb (equals (computeHash curr) (hash curr)) then Some errBlockHash
      else if (List.length (forwardLinks prev) =? 0)%nat then Some errNoForwardLink
      else
        match find (fun l => equals (to l) (hash curr)) (forwardLinks prev) with
        | None => Some errNoAssociatedLink
        | Some link =>
            match verify link (getServicePublics (roster prev) serviceName) with
            | Some err => Some (errInvalidLink err)
            | None => verifyLinks curr rest'
            end
        end
  end.

(** [firstID] is optional; a buffer, even an empty one, is truthy. *)
Definition verifyChain `{Hashing} `{Signing}
    (blocks : list SkipBlock) (firstID : option Buffer) : option Error :=
  match blocks with
  | [] => Some errNoBlock
  | first :: rest =>
      if match firstID with
         | Some id => negb (equals (computeHash first) id)
         | None => false
         end
      then Some errFirstID
      else verifyLinks first rest
  end.

(** *** Single-block fetches *)

(** [this.conn[0].send(...)]: with an empty roster [this.conn[0]] is
    [undefined] and the call raises. *)
Definition getSkipBlock `{Hashing} {Net : Type} `{IConnection Net}
    (r : Roster) (bid : Buffer) (w : World Net) : World Net * Promise SkipBlock :=
  match connect r with
  | [] => (w, Rejected (errTypeError "send"))
  | c :: _ =>
      match sendGetSingleBlock (net w) c bid with
      | (n, inl err) => (mkWorld n (logged w), Rejected err)
      | (n, inr block) =>
          if negb (equals (computeHash block) (hash block))
          then (mkWorld n (logged w), Rejected errHashMismatch)
          else (mkWorld n (logged w), Resolved block)
      end
  end.

Definition getSkipBlockByIndex `{Hashing} {Net : Type} `{IConnection Net}
    (r : Roster) (gen : Buffer) (idx : nat) (w : World Net)
  : World Net * Promise GetSingleBlockByIndexReply :=
  match connect r with
  | [] => (w, Rejected (errTypeError "send"))
  | c :: _ =>
      match sendGetSingleBlockByIndex (net w) c gen idx with
      | (n, inl err) => (mkWorld n (logged w), Rejected err)
      | (n, inr reply) =>
          if negb (equals (computeHash (skipblock reply)) (hash (skipblock reply)))
          then (mkWorld n (logged w), Rejected errHashMismatch)
          else (mkWorld n (logged w), Resolved reply)
      end
  end.

(** *** getUpdateChain *)

Definition getUpdateChain `{Hashing} `{Signing} {Net : Type} `{IConnection Net}
    (r : Roster) (latestID : Buffer) (w : World Net)
  : World Net * Promise (list SkipBlock) :=
  match connect r with
  | [] => (w, Rejected (errTypeError "send"))
  | c :: _ =>
      match sendGetUpdateChain (net w) c latestID with
      | (n, inl err) => (mkWorld n (logged w), Rejected err)
      | (n, inr ret) =>
          match verifyChain (update ret) (Some latestID) with
          | Some err => (mkWorld n (logged w), Rejected (errInvalidChain err))
          | None => (mkWorld n (logged w), Resolved (update ret))
          end
      end
  end.

(** *** getLatestBlock *)

(** The [for (const c of this.conn)] loop.  [again] stands for the call
    [new SkipchainRPC(b.roster).getLatestBlock(b.hash)]. *)
Fixpoint tryConns `{Hashing} `{Signing} {Net : Type} `{IConnection Net}
    (again : Roster -> Buffer -> World Net -> option (World Net * Promise SkipBlock))
    (conns : list Connection) (latestID : Buffer) (w : World Net)
  : option (World Net * Promise SkipBlock) :=
  match conns with
  | [] => Some (w, Rejected errNoConode)
  | c :: conns' =>
      match sendGetUpdateChain (net w) c latestID with
      | (n, inl err) =>
          tryConns again conns' latestID
            (lvl3 n w [LogString ("error from " ++ getURL c ++ ": " ++ message err)%string])
      | (n, inr reply) =>
          match verifyChain (update reply) (Some latestID) with
          | None =>
              match pop (update reply) with
              | None => Some (mkWorld n (logged w), Rejected (errTypeError "forwardLinks"))
              | Some b =>
                  if (List.length (forwardLinks b) =? 0)%nat
                  then Some (mkWorld n (logged w), Resolved b)
                  else again (roster b) (hash b) (mkWorld n (logged w))
              end
          | Some err =>
              tryConns again conns' latestID
                (lvl3 n w [LogString "Received corrupted skipchain with error:"; LogError err])
          end
      end
  end.

(** [fuel] bounds the number of nested calls; [None] means the bound was
    reached before the promise settled. *)
Fixpoint getLatestBlock `{Hashing} `{Signing} {Net : Type} `{IConnection Net}
    (fuel : nat) (r : Roster) (latestID : Buffer) (w : World Net)
  : option (World Net * Promise SkipBlock) :=
  match fuel with
  | 0 => None
  | S fuel' => tryConns (getLatestBlock fuel') (connect r) latestID w
  end.

(** ** Notions the properties are stated with *)

(** The world after every connection of [conns] has failed on [latestID]
    (its send threw, or [verifyChain] refused its reply), one line logged per
    failure; [None] as soon as one of them yields a verifiable chain. *)
Fixpoint failRun `{Hashing} `{Signing} {Net : Type} `{IConnection Net}
    (conns : list Connection) (latestID : Buffer) (w : World Net)
  : option (World Net) :=
  match conns with
  | [] => Some w
  | c :: conns' =>
      match sendGetUpdateChain (net w) c latestID with
      | (n, inl err) =>
          failRun conns' latestID
            (lvl3 n w [LogString ("error from " ++ getURL c ++ ": " ++ message err)%string])
      | (n, inr reply) =>
          match verifyChain (update reply) (Some latestID) with
          | None => None
          | Some err =>
              failRun conns' latestID
                (lvl3 n w [LogString "Received corrupted skipchain with error:"; LogError err])
          end
      end
  end.

(** One restart of [getLatestBlock]: in world [w] the members before [c]
    fail on [id], [c] sends a verifiable chain whose last block [b] has a
    forward link, and the call goes on as the call on [b]'s roster and stored
    hash, in the world left by [c]'s reply; the members behind [c] are not
    asked. *)
Inductive Restarts `{Hashing} `{Signing} {Net : Type} `{IConnection Net}
  : Roster -> Buffer -> World Net -> Roster -> Buffer -> World Net -> Prop :=
| Restarts_at (r : Roster) (id : Buffer) (w w1 : World Net)
    (pre post : list Connection) (c : Connection) (n : Net)
    (reply : GetUpdateChainReply) (b : SkipBlock) :
    connect r = pre ++ c :: post ->
    failRun pre id w = Some w1 ->
    sendGetUpdateChain (net w1) c id = (n, inr reply) ->
    verifyChain (update reply) (Some id) = None ->
    pop (update reply) = Some b ->
    forwardLinks b <> [] ->
    Restarts r id w (roster b) (hash b) (mkWorld n (logged w1)).

(** The roster, root and world a call is at after any number of restarts. *)
Inductive Reaches `{Hashing} `{Signing} {Net : Type} `{IConnection Net}
  : Roster -> Buffer -> World Net -> Roster -> Buffer -> World Net -> Prop :=
| Reaches_here (r : Roster) (id : Buffer) (w : World Net) :
    Reaches r id w r id w
| Reaches_restart (r r1 r2 : Roster) (id id1 id2 : Buffer) (w w1 w2 : World Net) :
    Restarts r id w r1 id1 w1 ->
    Reaches r1 id1 w1 r2 id2 w2 ->
    Reaches r id w r2 id2 w2.

(** The validity of a chain in the words of the specification: every adjacent
    pair has a forward link on the earlier block whose destination is the
    later block's recomputed hash and whose signature verifies, and every
    block's stored hash is its recomputed hash. *)
Definition adjacentLinked `{Hashing} `{Signing} (prev curr : SkipBlock) : Prop :=
  exists link,
    In link (forwardLinks prev) /\
    to link = computeHash curr /\
    verify link (getServicePublics (roster prev) serviceName) = None.

Definition chainValid `{Hashing} `{Signing} (blocks : list SkipBlock) : Prop :=
  (forall i prev curr,
      nth_error blocks i = Some prev ->
      nth_error blocks (S i) = Some curr ->
      adjacentLinked prev curr) /\
  (forall b, In b blocks -> computeHash b = hash b).

(** What [verifyChain] asks of an adjacent pair: the later block's stored
    hash is its recomputed hash, and the first forward link of the earlier
    block that leads to that hash verifies against the earlier block's own
    roster. *)
Definition linkedByFirstMatch `{Hashing} `{Signing} (prev curr : SkipBlock) : Prop :=
  computeHash curr = hash curr /\
  exists link,
    find (fun l => equals (to l) (hash curr)) (forwardLinks prev) = Some link /\
    verify link (getServicePublics (roster prev) serviceName) = None.

(** The verifier in the words of the specification, "stateful over the
    current trusted roster": the matched link is checked against
    [trustedKeys], and [step] gives the keys trusted from the next pair on. *)
Definition KeyStep := list Point -> ForwardLink -> SkipBlock -> list Point.

Fixpoint verifyLinksRunning `{Hashing} `{Signing} (step : KeyStep)
    (trustedKeys : list Point) (prev : SkipBlock) (rest : list SkipBlock)
  : option Error :=
  match rest with
  | [] => None
  | curr :: rest' =>
      if negb (equals (computeHash curr) (hash curr)) then Some errBlockHash
      else if (List.length (forwardLinks prev) =? 0)%nat then Some errNoForwardLink
      else
        match find (fun l => equals (to l) (computeHash curr)) (forwardLinks prev) with
        | None => Some errNoAssociatedLink
        | Some link =>
            match verify link trustedKeys with
            | Some err => Some (errInvalidLink err)
            | None => verifyLinksRunning step (step trustedKeys link curr) curr rest'
            end
        end
  end.

Definition verifyChainRunning `{Hashing} `{Signing} (step : KeyStep)
    (blocks : list SkipBlock) (firstID : option Buffer) : option Error :=
  match blocks with
  | [] => Some errNoBlock
  | first :: rest =>
      if match firstID with
         | Some id => negb (equals (computeHash first) id)
         | None => false
         end
      then Some errFirstID
      else verifyLinksRunning step (getServicePublics (roster first) serviceName) first rest
  end.

(** Step (e) of the specification: a replacement roster carried by the
    matched link takes over, otherwise the trusted keys stay. *)
Definition replacementStep `{Signing} : KeyStep :=
  fun trustedKeys link _ =>
    match newRoster link with
    | Some r => getServicePublics r serviceName
    | None => trustedKeys
    end.

(** What the source does instead: the next pair is checked against the roster
    of its own earlier block. *)
Definition ownRosterStep `{Signing} : KeyStep :=
  fun _ _ curr => getServicePublics (roster curr) serviceName.

(** The restart of [getLatestBlock] in the words of the specification: the
    newest (last listed) forward link that carries a replacement roster gives
    the new roster and, by its destination, the new root; without one the
    current roster is kept and the newest link gives the root. *)
Definition rotationTarget (current : Roster) (b : SkipBlock) : Roster * Buffer :=
  match find (fun l => match newRoster l with Some _ => true | None => false end)
             (rev (forwardLinks b)) with
  | Some l =>
      (match newRoster l with Some r => r | None => current end, to l)
  | None =>
      (current, match rev (forwardLinks b) with l :: _ => to l | [] => hash b end)
  end.

Fixpoint tryConnsRotating `{Hashing} `{Signing} {Net : Type} `{IConnection Net}
    (again : Roster -> Buffer -> World Net -> option (World Net * Promise SkipBlock))
    (current : Roster) (conns : list Connection) (latestID : Buffer) (w : World Net)
  : option (World Net * Promise SkipBlock) :=
  match conns with
  | [] => Some (w, Rejected errNoConode)
  | c :: conns' =>
      match sendGetUpdateChain (net w) c latestID with
      | (n, inl err) =>
          tryConnsRotating again current conns' latestID
            (lvl3 n w [LogString ("error from " ++ getURL c ++ ": " ++ message err)%string])
      | (n, inr reply) =>
          match verifyChain (update reply) (Some latestID) with
          | None =>
              match pop (update reply) with
              | None => Some (mkWorld n (logged w), Rejected (errTypeError "forwardLinks"))
              | Some b =>
                  if (List.length (forwardLinks b) =? 0)%nat
                  then Some (mkWorld n (logged w), Resolved b)
                  else again (fst (rotationTarget current b)) (snd (rotationTarget current b))
                         (mkWorld n (logged w))
              end
          | Some err =>
              tryConnsRotating again current conns' latestID
                (lvl3 n w [LogString "Received corrupted skipchain with error:"; LogError err])
          end
      end
  end.

Fixpoint getLatestBlockRotating `{Hashing} `{Signing} {Net : Type} `{IConnection Net}
    (fuel : nat) (r : Roster) (latestID : Buffer) (w : World Net)
  : option (World Net * Promise SkipBlock) :=
  match fuel with
  | 0 => None
  | S fuel' => tryConnsRotating (getLatestBlockRotating fuel') r (connect r) latestID w
  end.

(** ** Sample collaborators and chains

    A stand-in digest (the chain identity followed by the payload; the stored
    [hash] field and the forward links are not covered, as in the block model)
    and a stand-in aggregate signature (the signers' keys, concatenated).
    The scripted network answers from a table and records every request. *)

Definition sampleHashing : Hashing :=
  {| computeHash := fun b => genesis b ++ data b |}.

Definition sampleSigning : Signing :=
  {| verify := fun link publics =>
       if equals (signature link) (List.concat publics) then None
       else Some (mkError "signature not verified");
     getServicePublics := fun r _ => map public (members r) |}.

Definition Requests := list (string * Buffer).

Definition scripted (table : string -> Buffer -> Error + GetUpdateChainReply)
  : IConnection Requests :=
  {| sendGetSingleBlock := fun n c bid =>
       (n ++ [(getURL c, bid)],
        match table (getURL c) bid with
        | inr (mkGetUpdateChainReply (b :: _)) => inr b
        | inr _ => inl (mkError "block not found")
        | inl err => inl err
        end);
     sendGetSingleBlockByIndex := fun n c gen idx =>
       (n ++ [(getURL c, gen)],
        match table (getURL c) gen with
        | inr reply =>
            match nth_error (update reply) idx with
            | Some b => inr (mkGetSingleBlockByIndexReply b [])
            | None => inl (mkError "block not found")
            end
        | inl err => inl err
        end);
     sendGetUpdateChain := fun n c latestID =>
       (n ++ [(getURL c, latestID)], table (getURL c) latestID) |}.

Definition errUnreachable : Error := mkError "connection refused".

Definition serverA := mkServerIdentity [x0a] "ws://a:7771".
Definition serverB := mkServerIdentity [x0b] "ws://b:7771".
Definition serverC := mkServerIdentity [x0c] "ws://c:7771".
Definition serverD := mkServerIdentity [x0d] "ws://d:7771".

Definition rosterA := mkRoster [serverA].
Definition rosterB := mkRoster [serverB].
Definition rosterC := mkRoster [serverC].
Definition rosterAB := mkRoster [serverA; serverB].
Definition rosterABCD := mkRoster [serverA; serverB; serverC; serverD].

(** A block of the sample chain [x47]: its recomputed hash is
    [x47 :: payload]. *)
Definition block (stored payload : Buffer) (r : Roster) (fl : list ForwardLink)
  : SkipBlock :=
  mkSkipBlock stored 0 1 1 [] [x47] payload r fl.

Definition world0 : World Requests := mkWorld [] [].

Definition unreachable : Error + GetUpdateChainReply := inl errUnreachable.
Definition replies (blocks : list SkipBlock) : Error + GetUpdateChainReply :=
  inr (mkGetUpdateChainReply blocks).

(** A block whose stored hash is not its recomputed hash, and a server that
    returns it alone. *)
Definition forged : SkipBlock := block [xff] [x01] rosterA [].

Definition tableForged (url : string) (id : Buffer) : Error + GetUpdateChainReply :=
  if (url =? "ws://a:7771")%string && equals id [x47; x01]
  then replies [forged] else unreachable.

(** Two links to the same successor, the first with a signature that does not
    verify. *)
Definition linkUnsigned : ForwardLink := mkForwardLink [x47; x01] [x47; x02] None [].
Definition linkSigned : ForwardLink := mkForwardLink [x47; x01] [x47; x02] None [x0a].
Definition twoLinks : SkipBlock := block [x47; x01] [x01] rosterA [linkUnsigned; linkSigned].
Definition successor : SkipBlock := block [x47; x02] [x02] rosterA [].

(** A chain whose first link announces roster C while the next block names
    roster B, whose signature the second link carries. *)
Definition linkRotating : ForwardLink :=
  mkForwardLink [x47; x01] [x47; x02] (Some rosterC) [x0a].
Definition linkAfter : ForwardLink := mkForwardLink [x47; x02] [x47; x03] None [x0b].
Definition rotated : list SkipBlock :=
  [ block [x47; x01] [x01] rosterA [linkRotating];
    block [x47; x02] [x02] rosterB [linkAfter];
    block [x47; x03] [x03] rosterB [] ].

(** A server that answers with a single block which has a forward link and
    names the roster and root it was asked with. *)
Definition loopBlock : SkipBlock :=
  block [x47; x02] [x02] rosterA [mkForwardLink [x47; x02] [x47; x03] None [x0a]].

Definition tableLoop (url : string) (id : Buffer) : Error + GetUpdateChainReply :=
  replies [loopBlock].

(** A rotation: A knows the chain up to block 11, whose link to block 12
    announces roster C; B, the roster of block 11, has block 11 as a leaf; C
    has block 12. *)
Definition linkTo11 : ForwardLink := mkForwardLink [x47; x10] [x47; x11] None [x0a].
Definition linkTo12 : ForwardLink :=
  mkForwardLink [x47; x11] [x47; x12] (Some rosterC) [x0b].
Definition block10 : SkipBlock := block [x47; x10] [x10] rosterA [linkTo11].
Definition block11 : SkipBlock := block [x47; x11] [x11] rosterB [linkTo12].
Definition block11leaf : SkipBlock := block [x47; x11] [x11] rosterB [].
Definition block12 : SkipBlock := block [x47; x12] [x12] rosterC [].

Definition tableRotation (url : string) (id : Buffer) : Error + GetUpdateChainReply :=
  if (url =? "ws://a:7771")%string && equals id [x47; x10] then replies [block10; block11]
  else if (url =? "ws://b:7771")%string && equals id [x47; x11] then replies [block11leaf]
  else if (url =? "ws://c:7771")%string && equals id [x47; x12] then replies [block12]
  else unreachable.

(** A sends a verifiable chain that ends in a block of roster C with a
    forward link; C is unreachable; B has the tip. *)
Definition block20 : SkipBlock :=
  block [x47; x20] [x20] rosterC [mkForwardLink [x47; x20] [x47; x21] None [x0c]].
Definition block20leaf : SkipBlock := block [x47; x20] [x20] rosterAB [].

Definition tableStranded (url : string) (id : Buffer) : Error + GetUpdateChainReply :=
  if (url =? "ws://a:7771")%string then replies [block20]
  else if (url =? "ws://b:7771")%string then replies [block20leaf]
  else unreachable.

(** Roster [A; B; C; D]: A and B are unreachable, C has the chain 30, 31. *)
Definition linkTo31 : ForwardLink :=
  mkForwardLink [x47; x30] [x47; x31] None [x0a; x0b; x0c; x0d].
Definition block30 : SkipBlock := block [x47; x30] [x30] rosterABCD [linkTo31].
Definition block31 : SkipBlock := block [x47; x31] [x31] rosterABCD [].

Definition tableFailover (url : string) (id : Buffer) : Error + GetUpdateChainReply :=
  if (url =? "ws://c:7771")%string || (url =? "ws://d:7771")%string
  then replies [block30; block31] else unreachable.

(** Nobody answers. *)
Definition tableDown (url : string) (id : Buffer) : Error + GetUpdateChainReply :=
  unreachable.

Definition connA : Connection := mkConnection "ws://a:7771" serviceName.
Definition connB : Connection := mkConnection "ws://b:7771" serviceName.
Definition connC : Connection := mkConnection "ws://c:7771" serviceName.
Definition connD : Connection := mkConnection "ws://d:7771" serviceName.

(** The world once A and B have refused the request for block 30. *)
Definition worldAfterAB : World Requests :=
  mkWorld [("ws://a:7771", [x47; x30]); ("ws://b:7771", [x47; x30])]
          [[LogString "error from ws://a:7771: connection refused"];
           [LogString "error from ws://b:7771: connection refused"]].

(** The same block with other forward links: the servers append links to a
    block after it was stored. *)
Definition withForwardLinks (fl : list ForwardLink) (b : SkipBlock) : SkipBlock :=
  mkSkipBlock (hash b) (index b) (maxHeight b) (baseHeight b) (backlinks b)
              (genesis b) (data b) (roster b) fl.

Definition rosterABC := mkRoster [serverA; serverB; serverC].

(** Everybody answers with an empty chain. *)
Definition tableEmpty (url : string) (id : Buffer) : Error + GetUpdateChainReply :=
  replies [].

(** * Properties *)

(** ** Buffers and arrays *)

Lemma equals_eq (a b : Buffer) : equals a b = true <-> a = b.
Proof.
  revert b; induction a as [|x a IH]; intros [|y b]; simpl; split;
    try congruence; try reflexivity.
  - intros E. apply andb_true_iff in E as [Ex Ea].
    apply byte_dec_bl in Ex. apply IH in Ea. congruence.
  - intros E. injection E as -> ->.
    apply andb_true_iff; split; [now apply byte_dec_lb | now apply IH].
Qed.

Lemma equals_refl (a : Buffer) : equals a a = true.
Proof. now apply equals_eq. Qed.

Lemma equals_neq (a b : Buffer) : a <> b -> equals a b = false.
Proof.
  intros N. destruct (equals a b) eqn:E; [|reflexivity].
  apply equals_eq in E. contradiction.
Qed.

Lemma pop_None {A : Type} (l : list A) : pop l = None -> l = [].
Proof.
  induction l as [|x [|y l] IH]; simpl; intros E; try congruence.
  specialize (IH E). discriminate.
Qed.


Lemma length_eqb_nil {A : Type} (l : list A) :
  (List.length l =? 0)%nat = true <-> l = [].
Proof. destruct l; simpl; split; congruence. Qed.

Section Verifier.

Context {hashing : Hashing} {signing : Signing}.

(** ** verifyChain *)

Lemma verifyLinks_cons_None (prev curr : SkipBlock) (rest : list SkipBlock) :
  verifyLinks prev (curr :: rest) = None <->
  linkedByFirstMatch prev curr /\ verifyLinks curr rest = None.
Proof.
  unfold linkedByFirstMatch. simpl.
  destruct (equals (computeHash curr) (hash curr)) eqn:Eh; simpl.
  - apply equals_eq in Eh.
    destruct (forwardLinks prev) as [|l0 ls] eqn:Efl.
    + simpl. split; [discriminate|].
      intros [[_ [link [Ef _]]] _]. discriminate.
    + cbn [List.length Nat.eqb].
      destruct (find _ (l0 :: ls)) as [link|] eqn:Ef.
      * destruct (verify link _) as [err|] eqn:Ev.
        -- split; [discriminate|].
           intros [[_ [link' [Ef' Ev']]] _].
           injection Ef' as <-. congruence.
        -- split.
           ++ intros R. split; [split; [exact Eh|]|exact R].
              exists link. split; [reflexivity|exact Ev].
           ++ intros [_ R]. exact R.
      * split; [discriminate|].
        intros [[_ [link' [Ef' _]]] _]. discriminate.
  - split; [discriminate|].
    intros [[Eh' _] _]. rewrite Eh', equals_refl in Eh. discriminate.
Qed.

Lemma verifyLinks_adjacent (prev : SkipBlock) (rest : list SkipBlock) :
  verifyLinks prev rest = None <->
  forall i p c,
    nth_error (prev :: rest) i = Some p ->
    nth_error (prev :: rest) (S i) = Some c ->
    linkedByFirstMatch p c.
Proof.
  revert prev; induction rest as [|curr rest IH]; intros prev.
  - simpl. split; [|reflexivity].
    intros _ [|i] p c Hp Hc; simpl in Hc; [discriminate|destruct i; discriminate].
  - rewrite verifyLinks_cons_None, IH. split.
    + intros [L R] [|i] p c Hp Hc.
      * simpl in Hp, Hc. congruence.
      * apply (R i); assumption.
    + intros A. split.
      * apply (A 0); reflexivity.
      * intros i p c Hp Hc. apply (A (S i)); assumption.
Qed.

(** C10: a chain of one block, checked without a pinned identity, is
    accepted whatever the block is: the loop over adjacent pairs has nothing
    to run on, so neither the stored hash (which may differ from the
    recomputed one) nor the forward links nor any signature is looked at. *)
Theorem verifyChain_single_unpinned (b : SkipBlock) :
  verifyChain [b] None = None.
Proof. reflexivity. Qed.

(** C8: with a pinned first identity that differs from the recomputed hash of
    the first block, [verifyChain] answers with the first-identity error,
    whatever blocks follow; no pair has been examined at that point. *)
Theorem verifyChain_pinned_mismatch
    (first : SkipBlock) (rest : list SkipBlock) (pinned : Buffer) :
  pinned <> computeHash first ->
  verifyChain (first :: rest) (Some pinned) = Some errFirstID.
Proof.
  intros N. unfold verifyChain.
  rewrite equals_neq by congruence. reflexivity.
Qed.

(** C1 (amended): without a pinned identity a non-empty chain is accepted
    exactly when, for every adjacent pair, the later block's stored hash is
    its recomputed hash and the first forward link of the earlier block that
    leads to it verifies against the earlier block's roster.  The stored hash
    of the first block is not part of the condition. *)
Theorem verifyChain_unpinned_iff (first : SkipBlock) (rest : list SkipBlock) :
  verifyChain (first :: rest) None = None <->
  forall i prev curr,
    nth_error (first :: rest) i = Some prev ->
    nth_error (first :: rest) (S i) = Some curr ->
    linkedByFirstMatch prev curr.
Proof. unfold verifyChain. apply verifyLinks_adjacent. Qed.

Lemma verifyLinks_running_own (keys : list Point) (prev : SkipBlock)
    (rest : list SkipBlock) :
  keys = getServicePublics (roster prev) serviceName ->
  verifyLinksRunning ownRosterStep keys prev rest = verifyLinks prev rest.
Proof.
  revert keys prev; induction rest as [|curr rest IH]; intros keys prev ->.
  - reflexivity.
  - simpl.
    destruct (equals (computeHash curr) (hash curr)) eqn:Eh; simpl; [|reflexivity].
    apply equals_eq in Eh. rewrite Eh.
    destruct (List.length (forwardLinks prev) =? 0)%nat; [reflexivity|].
    destruct (find _ (forwardLinks prev)) as [link|]; [|reflexivity].
    destruct (verify link _); [reflexivity|].
    apply IH. reflexivity.
Qed.

(** C2 (amended): the keys a matched link is checked against are a running
    state that starts with the first block's roster, but the state is renewed
    at every step with the keys of the roster of the block the next link
    starts from; a replacement roster carried by a link does not enter it. *)
Theorem verifyChain_trusts_own_roster
    (blocks : list SkipBlock) (firstID : option Buffer) :
  verifyChain blocks firstID = verifyChainRunning ownRosterStep blocks firstID.
Proof.
  destruct blocks as [|first rest]; [reflexivity|].
  unfold verifyChain, verifyChainRunning.
  destruct (match firstID with Some id => _ | None => false end); [reflexivity|].
  symmetry. apply verifyLinks_running_own. reflexivity.
Qed.

Lemma verifyChain_accepts_nonempty (blocks : list SkipBlock) (firstID : option Buffer) :
  verifyChain blocks firstID = None ->
  exists first rest, blocks = first :: rest /\ verifyLinks first rest = None.
Proof.
  destruct blocks as [|first rest]; simpl; [discriminate|].
  destruct (match firstID with Some id => _ | None => false end); [discriminate|].
  intros E. now exists first, rest.
Qed.


Lemma verifyChain_pinned_first (blocks : list SkipBlock) (pinned : Buffer) :
  verifyChain blocks (Some pinned) = None ->
  exists first rest, blocks = first :: rest /\ computeHash first = pinned.
Proof.
  destruct blocks as [|first rest]; simpl; [discriminate|].
  destruct (equals (computeHash first) pinned) eqn:E; simpl; [|discriminate].
  intros _. apply equals_eq in E. now exists first, rest.
Qed.


End Verifier.

Section Failover.

Context {hashing : Hashing} {signing : Signing} {Net : Type} {conn : IConnection Net}.

Implicit Types (again : Roster -> Buffer -> World Net -> option (World Net * Promise SkipBlock)).

(** ** The member loop *)

Lemma failRun_logged (conns : list Connection) (id : Buffer) (w w' : World Net) :
  failRun conns id w = Some w' ->
  List.length (logged w') = List.length (logged w) + List.length conns.
Proof.
  revert w; induction conns as [|c conns IH]; intros w; simpl.
  - intros E. injection E as <-. lia.
  - destruct (sendGetUpdateChain (net w) c id) as [n [err|reply]].
    + intros E. apply IH in E. unfold lvl3 in E. simpl in E.
      rewrite length_app in E. simpl in E. lia.
    + destruct (verifyChain (update reply) (Some id)) as [err|]; [|discriminate].
      intros E. apply IH in E. unfold lvl3 in E. simpl in E.
      rewrite length_app in E. simpl in E. lia.
Qed.

(** Connections that fail are passed over: the loop goes on behind them in
    the world they leave. *)
Lemma tryConns_skips_failures again (pre post : list Connection) (id : Buffer)
    (w w1 : World Net) :
  failRun pre id w = Some w1 ->
  tryConns again (pre ++ post) id w = tryConns again post id w1.
Proof.
  revert w; induction pre as [|c pre IH]; intros w; simpl.
  - intros E. now injection E as <-.
  - destruct (sendGetUpdateChain (net w) c id) as [n [err|reply]].
    + apply IH.
    + destruct (verifyChain (update reply) (Some id)) as [err|]; [apply IH|discriminate].
Qed.

Lemma tryConns_all_fail again (conns : list Connection) (id : Buffer) (w w' : World Net) :
  failRun conns id w = Some w' ->
  tryConns again conns id w = Some (w', Rejected errNoConode).
Proof.
  intros E. rewrite <- (app_nil_r conns).
  now rewrite (tryConns_skips_failures again conns [] id w w' E).
Qed.

(** The first connection with a verifiable chain decides. *)
Lemma tryConns_first_verified again (pre post : list Connection) (c : Connection)
    (id : Buffer) (w w1 : World Net) (n : Net) (reply : GetUpdateChainReply)
    (b : SkipBlock) :
  failRun pre id w = Some w1 ->
  sendGetUpdateChain (net w1) c id = (n, inr reply) ->
  verifyChain (update reply) (Some id) = None ->
  pop (update reply) = Some b ->
  tryConns again (pre ++ c :: post) id w =
    if (List.length (forwardLinks b) =? 0)%nat
    then Some (mkWorld n (logged w1), Resolved b)
    else again (roster b) (hash b) (mkWorld n (logged w1)).
Proof.
  intros F Es Ev Ep.
  rewrite (tryConns_skips_failures again pre _ id w w1 F).
  simpl. now rewrite Es, Ev, Ep.
Qed.

(** How the loop can settle: on exhaustion, or at the first member with a
    verifiable chain, with its last block if that is a leaf and otherwise
    with whatever the nested call settles with. *)
Lemma tryConns_cases again (conns : list Connection) (id : Buffer)
    (w w' : World Net) (p : Promise SkipBlock) :
  tryConns again conns id w = Some (w', p) ->
  (failRun conns id w = Some w' /\ p = Rejected errNoConode) \/
  exists pre c post w1 n reply b,
    conns = pre ++ c :: post /\
    failRun pre id w = Some w1 /\
    sendGetUpdateChain (net w1) c id = (n, inr reply) /\
    verifyChain (update reply) (Some id) = None /\
    pop (update reply) = Some b /\
    ((forwardLinks b = [] /\ w' = mkWorld n (logged w1) /\ p = Resolved b) \/
     (forwardLinks b <> [] /\
      again (roster b) (hash b) (mkWorld n (logged w1)) = Some (w', p))).
Proof.
  revert w; induction conns as [|c conns IH]; intros w; simpl.
  - intros E. injection E as <- <-. left. now split.
  - destruct (sendGetUpdateChain (net w) c id) as [n [err|reply]] eqn:Es.
    + intros E. apply IH in E as [[F ->]|(pre & c' & post & w1 & n' & reply & b & -> & F & R)].
      * left. now split.
      * right. exists (c :: pre), c', post, w1, n', reply, b.
        split; [reflexivity|]. split; [|exact R]. simpl. now rewrite Es.
    + destruct (verifyChain (update reply) (Some id)) as [err|] eqn:Ev.
      * intros E.
        apply IH in E as [[F ->]|(pre & c' & post & w1 & n' & reply' & b & -> & F & R)].
        -- left. now split.
        -- right. exists (c :: pre), c', post, w1, n', reply', b.
           split; [reflexivity|]. split; [|exact R]. simpl. now rewrite Es, Ev.
      * destruct (pop (update reply)) as [b|] eqn:Ep.
        -- intros E. right. exists [], c, conns, w, n, reply, b.
           repeat (split; [easy|]).
           destruct (List.length (forwardLinks b) =? 0)%nat eqn:El.
           ++ left. injection E as <- <-. apply length_eqb_nil in El. now repeat split.
           ++ right. split; [|exact E].
              intros N. rewrite N in El. discriminate.
        -- apply pop_None in Ep. rewrite Ep in Ev. discriminate.
Qed.

(** ** getLatestBlock *)

(** A settled call has reached, by restarts, a roster on which the member
    loop settled by itself: either all its members failed, or the first
    member with a verifiable chain sent one that ends in a leaf. *)
Lemma getLatestBlock_cases (fuel : nat) (r : Roster) (id : Buffer)
    (w w' : World Net) (p : Promise SkipBlock) :
  getLatestBlock fuel r id w = Some (w', p) ->
  exists r' id' w0,
    Reaches r id w r' id' w0 /\
    ((failRun (connect r') id' w0 = Some w' /\ p = Rejected errNoConode) \/
     exists pre c post w1 reply b,
       connect r' = pre ++ c :: post /\
       failRun pre id' w0 = Some w1 /\
       sendGetUpdateChain (net w1) c id' = (net w', inr reply) /\
       logged w' = logged w1 /\
       verifyChain (update reply) (Some id') = None /\
       pop (update reply) = Some b /\
       forwardLinks b = [] /\
       p = Resolved b).
Proof.
  revert r id w; induction fuel as [|fuel IH]; intros r id w; simpl; [discriminate|].
  intros E.
  apply tryConns_cases in E
    as [[F ->]|(pre & c & post & w1 & n & reply & b & Ec & F & Es & Ev & Ep & R)].
  - exists r, id, w. split; [constructor|]. left. now split.
  - destruct R as [(El & -> & ->)|(El & E)].
    + exists r, id, w. split; [constructor|]. right.
      exists pre, c, post, w1, reply, b. now repeat split.
    + apply IH in E as (r' & id' & w0 & R & C).
      exists r', id', w0. split; [|exact C].
      eapply Reaches_restart; [|exact R].
      now apply (Restarts_at r id w w1 pre post c n reply b).
Qed.

(** Conversely, what the call reached by restarts settles with is what the
    first call settles with. *)
Lemma getLatestBlock_reaches (r r' : Roster) (id id' : Buffer) (w w0 : World Net)
    (x : World Net * Promise SkipBlock) :
  Reaches r id w r' id' w0 ->
  forall fuel, getLatestBlock fuel r' id' w0 = Some x ->
  exists fuel', getLatestBlock fuel' r id w = Some x.
Proof.
  induction 1 as [r id w|r r1 r2 id id1 id2 w w1 w2 R _ IH]; intros fuel E.
  - now exists fuel.
  - destruct (IH _ E) as [fuel' E'].
    destruct R as [r id w w1 pre post c n reply b Ec F Es Ev Ep El].
    exists (S fuel'). simpl. rewrite Ec.
    rewrite (tryConns_first_verified _ pre post c id w w1 n reply b F Es Ev Ep).
    destruct (List.length (forwardLinks b) =? 0)%nat eqn:E0; [|exact E'].
    apply length_eqb_nil in E0. contradiction.
Qed.

(** A larger bound on nested calls does not change a settled promise. *)
Lemma tryConns_mono again again' (conns : list Connection) (id : Buffer)
    (w : World Net) (x : World Net * Promise SkipBlock) :
  (forall r' id' w0, again r' id' w0 = Some x -> again' r' id' w0 = Some x) ->
  tryConns again conns id w = Some x ->
  tryConns again' conns id w = Some x.
Proof.
  intros M. revert w; induction conns as [|c conns IH]; intros w; simpl; [easy|].
  destruct (sendGetUpdateChain (net w) c id) as [n [err|reply]]; [apply IH|].
  destruct (verifyChain (update reply) (Some id)); [apply IH|].
  destruct (pop (update reply)) as [b|]; [|easy].
  destruct (List.length (forwardLinks b) =? 0)%nat; [easy|apply M].
Qed.

Lemma getLatestBlock_more_fuel (fuel extra : nat) (r : Roster) (id : Buffer)
    (w : World Net) (x : World Net * Promise SkipBlock) :
  getLatestBlock fuel r id w = Some x ->
  getLatestBlock (fuel + extra) r id w = Some x.
Proof.
  revert r id w; induction fuel as [|fuel IH]; intros r id w; simpl; [discriminate|].
  apply tryConns_mono. intros r' id' w0. apply IH.
Qed.


(** C4 (amended): [getLatestBlock] keeps no record of the pairs it has tried.
    When the first member answers a root with a verifiable chain whose last
    block has a forward link and names the very roster and root of the call,
    and answers so every time, the call restarts on the same pair again and
    again: no number of nested calls lets it settle, with an error or
    otherwise. *)
Theorem getLatestBlock_revisit_never_settles
    (r : Roster) (id : Buffer) (c : Connection) (cs : list Connection)
    (reply : GetUpdateChainReply) (b : SkipBlock) :
  connect r = c :: cs ->
  (forall n, snd (sendGetUpdateChain n c id) = inr reply) ->
  verifyChain (update reply) (Some id) = None ->
  pop (update reply) = Some b ->
  forwardLinks b <> [] ->
  roster b = r ->
  hash b = id ->
  forall fuel (w : World Net), getLatestBlock fuel r id w = None.
Proof.
  intros Ec Es Ev Ep El Er Eh fuel.
  induction fuel as [|fuel IH]; intros w; simpl; [reflexivity|].
  rewrite Ec. simpl.
  specialize (Es (net w)).
  destruct (sendGetUpdateChain (net w) c id) as [n res]. simpl in Es. subst res.
  rewrite Ev, Ep.
  destruct (List.length (forwardLinks b) =? 0)%nat eqn:E0.
  - apply length_eqb_nil in E0. contradiction.
  - rewrite Er, Eh. apply IH.
Qed.

(** C5 (amended): when the first member with a verifiable chain returns one
    whose last block has a forward link, the call restarts on that last
    block's own roster with that block's own stored hash as the root; the
    forward links and their replacement rosters are not consulted. *)
Theorem getLatestBlock_restarts_on_last_block
    (fuel : nat) (r : Roster) (id : Buffer) (w w1 : World Net)
    (pre post : list Connection) (c : Connection) (n : Net)
    (reply : GetUpdateChainReply) (b : SkipBlock) :
  connect r = pre ++ c :: post ->
  failRun pre id w = Some w1 ->
  sendGetUpdateChain (net w1) c id = (n, inr reply) ->
  verifyChain (update reply) (Some id) = None ->
  pop (update reply) = Some b ->
  forwardLinks b <> [] ->
  getLatestBlock (S fuel) r id w =
    getLatestBlock fuel (roster b) (hash b) (mkWorld n (logged w1)).
Proof.
  intros Ec F Es Ev Ep El. simpl. rewrite Ec.
  rewrite (tryConns_first_verified _ pre post c id w w1 n reply b F Es Ev Ep).
  destruct (List.length (forwardLinks b) =? 0)%nat eqn:E0; [|reflexivity].
  apply length_eqb_nil in E0. contradiction.
Qed.

(** C6 (amended): inside one call every failing member is logged and passed
    over, and when all members of the roster fail the call is rejected with
    "no conode has the latest block", one logger call per member.  Whenever a
    call is rejected, it is with that error, raised when every member of the
    roster queried last has failed: the roster of the call, or the roster the
    call has reached by restarts.  Conversely, once restarts have led to a
    roster whose members all fail, the call is rejected with that error in
    the world that roster left: the members behind the restarting member of
    an earlier roster are not tried. *)
Theorem getLatestBlock_exhaustion :
  (forall fuel r id (w w' : World Net),
      failRun (connect r) id w = Some w' ->
      getLatestBlock (S fuel) r id w = Some (w', Rejected errNoConode) /\
      List.length (logged w') = List.length (logged w) + List.length (members r)) /\
  (forall fuel r id (w w' : World Net) e,
      getLatestBlock fuel r id w = Some (w', Rejected e) ->
      e = errNoConode /\
      exists r' id' w0,
        Reaches r id w r' id' w0 /\ failRun (connect r') id' w0 = Some w') /\
  (forall r id (w : World Net) r' id' w0 w',
      Reaches r id w r' id' w0 ->
      failRun (connect r') id' w0 = Some w' ->
      exists fuel, forall extra,
        getLatestBlock (fuel + extra) r id w = Some (w', Rejected errNoConode)).
Proof.
  split; [|split].
  - intros fuel r id w w' F. split.
    + simpl. now apply tryConns_all_fail.
    + apply failRun_logged in F. unfold connect in F.
      now rewrite length_map in F.
  - intros fuel r id w w' e E.
    apply getLatestBlock_cases in E as (r' & id' & w0 & R & [[F N]|C]).
    + injection N as ->. split; [reflexivity|]. now exists r', id', w0.
    + destruct C as (pre & c & post & w1 & reply & b & _ & _ & _ & _ & _ & _ & _ & N).
      discriminate.
  - intros r id w r' id' w0 w' R F.
    assert (getLatestBlock 1 r' id' w0 = Some (w', Rejected errNoConode)) as E
      by (simpl; now apply tryConns_all_fail).
    destruct (getLatestBlock_reaches _ _ _ _ _ _ _ R _ E) as [fuel E'].
    exists fuel. intros extra. now apply getLatestBlock_more_fuel.
Qed.

(** C7: members are tried in roster order from the first.  When the members
    before some member all fail and that member returns a verifiable chain
    whose last block has no forward link, the call resolves with that block,
    having logged exactly one failure per earlier member. *)
Theorem getLatestBlock_lowest_index_wins
    (fuel : nat) (r : Roster) (id : Buffer) (w w1 : World Net)
    (pre post : list Connection) (c : Connection) (n : Net)
    (reply : GetUpdateChainReply) (b : SkipBlock) :
  connect r = pre ++ c :: post ->
  failRun pre id w = Some w1 ->
  sendGetUpdateChain (net w1) c id = (n, inr reply) ->
  verifyChain (update reply) (Some id) = None ->
  pop (update reply) = Some b ->
  forwardLinks b = [] ->
  getLatestBlock (S fuel) r id w = Some (mkWorld n (logged w1), Resolved b) /\
  List.length (logged w1) = List.length (logged w) + List.length pre.
Proof.
  intros Ec F Es Ev Ep El. split.
  - simpl. rewrite Ec.
    rewrite (tryConns_first_verified _ pre post c id w w1 n reply b F Es Ev Ep).
    now rewrite El.
  - now apply failRun_logged in F.
Qed.

End Failover.

Section Fetch.

Context {hashing : Hashing} {Net : Type} {conn : IConnection Net}.

(** C9: a single-block fetch, by identity or by index, resolves with the
    reply exactly when the returned block's recomputed hash equals its stored
    hash, and is rejected with "invalid block: hash does not match" when they
    differ.  Both are defined over the hashing collaborator alone: no forward
    link is read and no signature is verified. *)
Theorem single_fetch_self_consistency :
  (forall r bid (w : World Net) c cs n block,
      connect r = c :: cs ->
      sendGetSingleBlock (net w) c bid = (n, inr block) ->
      (computeHash block = hash block ->
       getSkipBlock r bid w = (mkWorld n (logged w), Resolved block)) /\
      (computeHash block <> hash block ->
       getSkipBlock r bid w = (mkWorld n (logged w), Rejected errHashMismatch))) /\
  (forall r gen idx (w : World Net) c cs n reply,
      connect r = c :: cs ->
      sendGetSingleBlockByIndex (net w) c gen idx = (n, inr reply) ->
      (computeHash (skipblock reply) = hash (skipblock reply) ->
       getSkipBlockByIndex r gen idx w = (mkWorld n (logged w), Resolved reply)) /\
      (computeHash (skipblock reply) <> hash (skipblock reply) ->
       getSkipBlockByIndex r gen idx w = (mkWorld n (logged w), Rejected errHashMismatch))).
Proof.
  split.
  - intros r bid w c cs n block Ec Es. unfold getSkipBlock. rewrite Ec, Es. split.
    + intros E. now rewrite E, equals_refl.
    + intros N. now rewrite (equals_neq _ _ N).
  - intros r gen idx w c cs n reply Ec Es. unfold getSkipBlockByIndex.
    rewrite Ec, Es. split.
    + intros E. now rewrite E, equals_refl.
    + intros N. now rewrite (equals_neq _ _ N).
Qed.

End Fetch.

(** * The properties on the sample chains *)

Lemma revisit_tableLoop (fuel : nat) (w : World Requests) :
  @getLatestBlock sampleHashing sampleSigning Requests (scripted tableLoop)
    fuel rosterA [x47; x02] w = None.
Proof.
  revert w; induction fuel as [|fuel IH]; intros w; [reflexivity|].
  cbn -[getLatestBlock]. apply IH.
Qed.

(** C1, as stated, fails both ways: the lone forged block is accepted although
    its stored hash is not its recomputed hash, and a pair joined by a
    matching, verifying link is refused because an earlier link to the same
    block does not verify. *)
Lemma verifyChain_unpinned_not_chainValid :
  (@verifyChain sampleHashing sampleSigning [forged] None = None /\
   ~ @chainValid sampleHashing sampleSigning [forged]) /\
  (@chainValid sampleHashing sampleSigning [twoLinks; successor] /\
   @verifyChain sampleHashing sampleSigning [twoLinks; successor] None <> None).
Proof.
  split; split.
  - reflexivity.
  - intros [_ Hh]. specialize (Hh forged (or_introl eq_refl)). discriminate.
  - split.
    + intros [|[|i]] prev curr Hp Hc; simpl in Hp, Hc.
      * injection Hp as <-. injection Hc as <-.
        exists linkSigned. repeat split. simpl. auto.
      * discriminate.
      * destruct i; discriminate.
    + intros b [<-|[<-|[]]]; reflexivity.
  - discriminate.
Qed.

(** C2, as stated, fails: the link after the rotation point is accepted with
    block B's keys although the preceding link announced roster C, against
    whose keys it does not verify. *)
Lemma verifyChain_ignores_replacement_roster :
  @verifyChain sampleHashing sampleSigning rotated None = None /\
  @verifyChainRunning sampleHashing sampleSigning (@replacementStep sampleSigning)
    rotated None = Some (errInvalidLink (mkError "signature not verified")) /\
  newRoster linkRotating = Some rosterC /\
  @verify sampleSigning linkAfter (@getServicePublics sampleSigning rosterC serviceName)
    <> None.
Proof. repeat split. discriminate. Qed.


(** C4, as stated, fails: the server of [tableLoop] sends the call back to
    the pair it started from, and the call never settles, neither with a
    cycle error nor otherwise. *)
Lemma getLatestBlock_loops_on_revisit :
  roster loopBlock = rosterA /\ hash loopBlock = [x47; x02] /\
  ~ exists fuel w p,
      @getLatestBlock sampleHashing sampleSigning Requests (scripted tableLoop)
        fuel rosterA [x47; x02] world0 = Some (w, p).
Proof.
  repeat split. intros (fuel & w & p & E).
  rewrite revisit_tableLoop in E. discriminate.
Qed.

(** C5, as stated, fails: after A's chain ends in block 11, whose link
    announces roster C and leads to block 12, the source asks B, the roster
    of block 11, for block 11; the specification's restart asks C for
    block 12. *)
Lemma getLatestBlock_not_rotating :
  @getLatestBlock sampleHashing sampleSigning Requests (scripted tableRotation)
    2 rosterA [x47; x10] world0
  = Some (mkWorld [("ws://a:7771", [x47; x10]); ("ws://b:7771", [x47; x11])] [],
          Resolved block11leaf) /\
  @getLatestBlockRotating sampleHashing sampleSigning Requests (scripted tableRotation)
    2 rosterA [x47; x10] world0
  = Some (mkWorld [("ws://a:7771", [x47; x10]); ("ws://c:7771", [x47; x12])] [],
          Resolved block12).
Proof. split; reflexivity. Qed.

(** C6, as stated, fails: A produces a verifiable chain, yet the call is
    rejected, because the restart on roster C finds nobody; B is never
    asked. *)
Lemma getLatestBlock_rejects_after_verified_member :
  @getLatestBlock sampleHashing sampleSigning Requests (scripted tableStranded)
    2 rosterAB [x47; x20] world0
  = Some (mkWorld [("ws://a:7771", [x47; x20]); ("ws://c:7771", [x47; x20])]
                  [[LogString "error from ws://c:7771: connection refused"]],
          Rejected errNoConode) /\
  @sendGetUpdateChain Requests (scripted tableStranded) [] connA [x47; x20]
  = ([("ws://a:7771", [x47; x20])], replies [block20]) /\
  @verifyChain sampleHashing sampleSigning [block20] (Some [x47; x20]) = None /\
  @failRun sampleHashing sampleSigning Requests (scripted tableStranded)
    (connect rosterAB) [x47; x20] world0 = None.
Proof. repeat split. Qed.

(** ** Instances of the theorems *)

Lemma verifyChain_pinned_mismatch_witness :
  @verifyChain sampleHashing sampleSigning [block30; block31] (Some [x00])
  = Some errFirstID.
Proof.
  apply (@verifyChain_pinned_mismatch sampleHashing sampleSigning block30 [block31] [x00]).
  discriminate.
Defined.


Lemma getLatestBlock_revisit_never_settles_witness :
  @getLatestBlock sampleHashing sampleSigning Requests (scripted tableLoop)
    9 rosterA [x47; x02] world0 = None.
Proof.
  apply (@getLatestBlock_revisit_never_settles sampleHashing sampleSigning
           Requests (scripted tableLoop) rosterA [x47; x02] connA []
           (mkGetUpdateChainReply [loopBlock]) loopBlock);
    try reflexivity.
  discriminate.
Defined.

Lemma getLatestBlock_restarts_on_last_block_witness :
  @getLatestBlock sampleHashing sampleSigning Requests (scripted tableRotation)
    2 rosterA [x47; x10] world0
  = @getLatestBlock sampleHashing sampleSigning Requests (scripted tableRotation)
      1 rosterB [x47; x11] (mkWorld [("ws://a:7771", [x47; x10])] []).
Proof.
  apply (@getLatestBlock_restarts_on_last_block sampleHashing sampleSigning
           Requests (scripted tableRotation) 1 rosterA [x47; x10] world0 world0
           [] [] connA [("ws://a:7771", [x47; x10])]
           (mkGetUpdateChainReply [block10; block11]) block11);
    try reflexivity.
  discriminate.
Defined.

Lemma getLatestBlock_exhaustion_witness :
  (@getLatestBlock sampleHashing sampleSigning Requests (scripted tableDown)
    1 rosterABCD [x47; x30] world0
  = Some (mkWorld [("ws://a:7771", [x47; x30]); ("ws://b:7771", [x47; x30]);
                   ("ws://c:7771", [x47; x30]); ("ws://d:7771", [x47; x30])]
                  [[LogString "error from ws://a:7771: connection refused"];
                   [LogString "error from ws://b:7771: connection refused"];
                   [LogString "error from ws://c:7771: connection refused"];
                   [LogString "error from ws://d:7771: connection refused"]],
          Rejected errNoConode) /\
  4 = 0 + 4) /\
  (errNoConode = errNoConode /\
   exists r' id' w0,
     @Reaches sampleHashing sampleSigning Requests (scripted tableStranded)
       rosterAB [x47; x20] world0 r' id' w0 /\
     @failRun sampleHashing sampleSigning Requests (scripted tableStranded)
       (connect r') id' w0
     = Some (mkWorld [("ws://a:7771", [x47; x20]); ("ws://c:7771", [x47; x20])]
                     [[LogString "error from ws://c:7771: connection refused"]])).
Proof.
  split.
  apply (proj1 (@getLatestBlock_exhaustion sampleHashing sampleSigning
                  Requests (scripted tableDown)) 0 rosterABCD [x47; x30] world0).
  reflexivity.
  apply (proj1 (proj2 (@getLatestBlock_exhaustion sampleHashing sampleSigning
                         Requests (scripted tableStranded)))
           2 rosterAB [x47; x20] world0).
  reflexivity.
Defined.

Lemma getLatestBlock_lowest_index_wins_witness :
  @getLatestBlock sampleHashing sampleSigning Requests (scripted tableFailover)
    1 rosterABCD [x47; x30] world0
  = Some (mkWorld [("ws://a:7771", [x47; x30]); ("ws://b:7771", [x47; x30]);
                   ("ws://c:7771", [x47; x30])]
                  (logged worldAfterAB),
          Resolved block31) /\
  List.length (logged worldAfterAB) = 0 + 2.
Proof.
  apply (@getLatestBlock_lowest_index_wins sampleHashing sampleSigning
           Requests (scripted tableFailover) 0 rosterABCD [x47; x30] world0 worldAfterAB
           [connA; connB] [connD] connC
           [("ws://a:7771", [x47; x30]); ("ws://b:7771", [x47; x30]);
            ("ws://c:7771", [x47; x30])]
           (mkGetUpdateChainReply [block30; block31]) block31);
    reflexivity.
Defined.

Lemma single_fetch_self_consistency_witness :
  @getSkipBlock sampleHashing Requests (scripted tableFailover) rosterC [x47; x30] world0
  = (mkWorld [("ws://c:7771", [x47; x30])] [], Resolved block30) /\
  @getSkipBlockByIndex sampleHashing Requests (scripted tableForged) rosterA [x47; x01] 0 world0
  = (mkWorld [("ws://a:7771", [x47; x01])] [], Rejected errHashMismatch).
Proof.
  split.
  - apply (proj1 (proj1 (@single_fetch_self_consistency sampleHashing Requests
                           (scripted tableFailover))
                    rosterC [x47; x30] world0 connC [] _ block30 eq_refl eq_refl)).
    reflexivity.
  - apply (proj2 (proj2 (@single_fetch_self_consistency sampleHashing Requests
                           (scripted tableForged))
                    rosterA [x47; x01] 0 world0 connA [] _
                    (mkGetSingleBlockByIndexReply forged []) eq_refl eq_refl)).
    discriminate.
Defined.

(** * Further properties of the verifier *)

Lemma pop_nonempty {A : Type} (x : A) (l : list A) : exists y, pop (x :: l) = Some y.
Proof.
  revert x; induction l as [|z l IH]; intros x.
  - now exists x.
  - destruct (IH z) as [y E]. exists y. exact E.
Qed.

Section VerifierMore.

Context {hashing : Hashing} {signing : Signing}.

(** The loop over [a ++ m :: b] is the loop up to [m] followed by the loop
    from [m]; the error is that of the part that fails first. *)
Lemma verifyLinks_app (prev m : SkipBlock) (a b : list SkipBlock) :
  verifyLinks prev (a ++ m :: b) =
    match verifyLinks prev (a ++ [m]) with
    | Some e => Some e
    | None => verifyLinks m b
    end.
Proof.
  revert prev; induction a as [|x a IH]; intros prev; simpl.
  - destruct (negb (equals (computeHash m) (hash m))); [reflexivity|].
    destruct (List.length (forwardLinks prev) =? 0)%nat; [reflexivity|].
    destruct (find _ (forwardLinks prev)) as [link|]; [|reflexivity].
    destruct (verify link _); reflexivity.
  - destruct (negb (equals (computeHash x) (hash x))); [reflexivity|].
    destruct (List.length (forwardLinks prev) =? 0)%nat; [reflexivity|].
    destruct (find _ (forwardLinks prev)) as [link|]; [|reflexivity].
    destruct (verify link _); [reflexivity|apply IH].
Qed.

Lemma verifyChain_app (a b : list SkipBlock) (m : SkipBlock) (firstID : option Buffer) :
  verifyChain (a ++ m :: b) firstID =
    match verifyChain (a ++ [m]) firstID with
    | Some e => Some e
    | None => verifyChain (m :: b) None
    end.
Proof.
  destruct a as [|first a]; simpl.
  - destruct (match firstID with Some id => _ | None => false end); reflexivity.
  - destruct (match firstID with Some id => _ | None => false end); [reflexivity|].
    apply verifyLinks_app.
Qed.

Lemma linkedByFirstMatch_adjacentLinked (prev curr : SkipBlock) :
  linkedByFirstMatch prev curr -> adjacentLinked prev curr.
Proof.
  intros [Eh (link & Ef & Ev)]. apply find_some in Ef as [Hin Eq].
  apply equals_eq in Eq. exists link. repeat split; congruence.
Qed.

(** X1: an accepted chain is a signed, hash-linked path.  For every adjacent
    pair the earlier block carries a forward link whose destination is the
    recomputed hash of the later block and which verifies against the
    earlier block's roster, and the later block's stored hash is its
    recomputed hash. *)
Theorem verifyChain_sound
    (blocks : list SkipBlock) (firstID : option Buffer) (i : nat)
    (prev curr : SkipBlock) :
  verifyChain blocks firstID = None ->
  nth_error blocks i = Some prev ->
  nth_error blocks (S i) = Some curr ->
  adjacentLinked prev curr /\ computeHash curr = hash curr.
Proof.
  intros E Hp Hc.
  destruct (verifyChain_accepts_nonempty _ _ E) as (first & rest & -> & L).
  rewrite verifyLinks_adjacent in L. specialize (L i prev curr Hp Hc).
  split; [now apply linkedByFirstMatch_adjacentLinked | exact (proj1 L)].
Qed.

(** X2: pinning adds exactly one condition.  A chain is accepted with a
    pinned identity if and only if it is accepted without one and the
    recomputed hash of its first block is the pinned identity. *)
Theorem verifyChain_pinned_iff (blocks : list SkipBlock) (pinned : Buffer) :
  verifyChain blocks (Some pinned) = None <->
  verifyChain blocks None = None /\
  exists first rest, blocks = first :: rest /\ computeHash first = pinned.
Proof.
  destruct blocks as [|first rest]; simpl.
  - split; [discriminate|]. intros [E _]. discriminate.
  - destruct (equals (computeHash first) pinned) eqn:E; simpl.
    + apply equals_eq in E. split.
      * intros L. split; [exact L|]. now exists first, rest.
      * intros [L _]. exact L.
    + split; [discriminate|].
      intros [_ (f & r & Eq & Ep)]. injection Eq as <- <-.
      rewrite Ep, equals_refl in E. discriminate.
Qed.

(** X3: chains split and join at a shared block.  Verifying [a ++ m :: b]
    gives the error of verifying [a ++ [m]] if that fails, and otherwise the
    result of verifying [m :: b] without a pinned identity. *)
Theorem verifyChain_split_at
    (a b : list SkipBlock) (m : SkipBlock) (firstID : option Buffer) :
  verifyChain (a ++ m :: b) firstID =
    match verifyChain (a ++ [m]) firstID with
    | Some e => Some e
    | None => verifyChain (m :: b) None
    end.
Proof. apply verifyChain_app. Qed.

(** X4: a block whose stored hash is not its recomputed hash is reported as
    "invalid block hash" at the first position where it follows an accepted
    prefix, whatever its links, the links leading to it and the blocks after
    it are. *)
Theorem verifyChain_reports_corrupt_block
    (a rest : list SkipBlock) (prev curr : SkipBlock) (firstID : option Buffer) :
  verifyChain (a ++ [prev]) firstID = None ->
  computeHash curr <> hash curr ->
  verifyChain (a ++ prev :: curr :: rest) firstID = Some errBlockHash.
Proof.
  intros E N. rewrite verifyChain_app, E. simpl.
  now rewrite (equals_neq _ _ N).
Qed.

(** X5: a block without forward links can only be the last block of an
    accepted chain. *)
Theorem verifyChain_leaf_only_last
    (a rest : list SkipBlock) (prev curr : SkipBlock) (firstID : option Buffer) :
  forwardLinks prev = [] ->
  verifyChain (a ++ prev :: curr :: rest) firstID <> None.
Proof.
  intros El E.
  assert (nth_error (a ++ prev :: curr :: rest) (List.length a) = Some prev) as Hp
    by (rewrite nth_error_app2, Nat.sub_diag; [reflexivity|lia]).
  assert (nth_error (a ++ prev :: curr :: rest) (S (List.length a)) = Some curr) as Hc.
  { rewrite nth_error_app2 by lia.
    replace (S (List.length a) - List.length a) with 1 by lia. reflexivity. }
  destruct (verifyChain_accepts_nonempty _ _ E) as (first & tl & Eq & L).
  rewrite Eq in Hp, Hc. rewrite verifyLinks_adjacent in L.
  destruct (L _ _ _ Hp Hc) as [_ (link & Ef & _)].
  rewrite El in Ef. discriminate.
Qed.

Lemma verifyLinks_last_links (prev last : SkipBlock) (a : list SkipBlock)
    (fl : list ForwardLink) :
  computeHash (withForwardLinks fl last) = computeHash last ->
  verifyLinks prev (a ++ [withForwardLinks fl last]) = verifyLinks prev (a ++ [last]).
Proof.
  intros Eh. revert prev; induction a as [|x a IH]; intros prev; simpl.
  - rewrite Eh. reflexivity.
  - destruct (negb (equals (computeHash x) (hash x))); [reflexivity|].
    destruct (List.length (forwardLinks prev) =? 0)%nat; [reflexivity|].
    destruct (find _ (forwardLinks prev)) as [link|]; [|reflexivity].
    destruct (verify link _); [reflexivity|apply IH].
Qed.

(** X6: the forward links of the last block are not examined.  When the
    block hash does not cover the forward links, replacing those of the last
    block leaves the verdict unchanged. *)
Theorem verifyChain_ignores_last_links
    (a : list SkipBlock) (last : SkipBlock) (fl : list ForwardLink)
    (firstID : option Buffer) :
  (forall b l, computeHash (withForwardLinks l b) = computeHash b) ->
  verifyChain (a ++ [withForwardLinks fl last]) firstID =
  verifyChain (a ++ [last]) firstID.
Proof.
  intros Eh. destruct a as [|first a]; simpl.
  - now rewrite Eh.
  - destruct (match firstID with Some id => _ | None => false end); [reflexivity|].
    apply verifyLinks_last_links. apply Eh.
Qed.

End VerifierMore.

(** * Further properties of the client *)

Section ClientMore.

Context {hashing : Hashing} {signing : Signing} {Net : Type} {conn : IConnection Net}.

Lemma connect_head (r1 r2 : Roster) :
  hd_error (members r1) = hd_error (members r2) ->
  hd_error (connect r1) = hd_error (connect r2).
Proof.
  unfold connect. destruct (members r1), (members r2); simpl; congruence.
Qed.

Lemma connect_app (ms ms' : list ServerIdentity) :
  connect (mkRoster (ms ++ ms')) = connect (mkRoster ms) ++ connect (mkRoster ms').
Proof. unfold connect. simpl. apply map_app. Qed.

(** X7: what [getUpdateChain] resolves with is the first member's reply,
    accepted by [verifyChain] pinned to the identity asked for: it is not
    empty, the recomputed hash of its first block is that identity, every
    adjacent pair is joined by a verified forward link, and nothing was
    logged. *)
Theorem getUpdateChain_resolved
    (r : Roster) (id : Buffer) (w w' : World Net) (blocks : list SkipBlock) :
  getUpdateChain r id w = (w', Resolved blocks) ->
  (exists c cs,
      connect r = c :: cs /\
      sendGetUpdateChain (net w) c id = (net w', inr (mkGetUpdateChainReply blocks))) /\
  (exists first rest, blocks = first :: rest /\ computeHash first = id) /\
  (forall i prev curr,
      nth_error blocks i = Some prev ->
      nth_error blocks (S i) = Some curr ->
      adjacentLinked prev curr /\ computeHash curr = hash curr) /\
  logged w' = logged w.
Proof.
  unfold getUpdateChain. destruct (connect r) as [|c cs] eqn:Ec; [discriminate|].
  destruct (sendGetUpdateChain (net w) c id) as [n [err|[upd]]] eqn:Es; [discriminate|].
  simpl. destruct (verifyChain upd (Some id)) as [err|] eqn:Ev; [discriminate|].
  intros E. injection E as <- <-. simpl. repeat split.
  - now exists c, cs.
  - exact (verifyChain_pinned_first _ _ Ev).
  - destruct (verifyChain_accepts_nonempty _ _ Ev) as (first & rest & -> & L).
    rewrite verifyLinks_adjacent in L.
    now apply linkedByFirstMatch_adjacentLinked, (L i).
  - destruct (verifyChain_accepts_nonempty _ _ Ev) as (first & rest & -> & L).
    rewrite verifyLinks_adjacent in L. exact (proj1 (L i prev curr H H0)).
Qed.

(** X8: when [getUpdateChain] resolves, [getLatestBlock] on the same roster,
    root and world goes by the last block of that chain: it resolves with
    it, in the same world, if the block has no forward link, and otherwise
    continues as the call on that block's roster and stored hash. *)
Theorem getLatestBlock_after_getUpdateChain
    (fuel : nat) (r : Roster) (id : Buffer) (w w' : World Net)
    (blocks : list SkipBlock) (b : SkipBlock) :
  getUpdateChain r id w = (w', Resolved blocks) ->
  pop blocks = Some b ->
  getLatestBlock (S fuel) r id w =
    if (List.length (forwardLinks b) =? 0)%nat
    then Some (w', Resolved b)
    else getLatestBlock fuel (roster b) (hash b) w'.
Proof.
  unfold getUpdateChain. simpl. destruct (connect r) as [|c cs]; [discriminate|].
  simpl. destruct (sendGetUpdateChain (net w) c id) as [n [err|[upd]]]; [discriminate|].
  simpl. destruct (verifyChain upd (Some id)) as [err|]; [discriminate|].
  intros E Ep. injection E as <- <-. now rewrite Ep.
Qed.

(** X9: the members behind the first one with a verifiable chain play no
    part: the call gives the same result, in the same world, as on the roster
    cut off after that member. *)
Theorem getLatestBlock_ignores_later_members
    (fuel : nat) (ms extra : list ServerIdentity) (s : ServerIdentity)
    (id : Buffer) (w w1 : World Net) (n : Net) (reply : GetUpdateChainReply) :
  failRun (connect (mkRoster ms)) id w = Some w1 ->
  sendGetUpdateChain (net w1) (mkConnection (getWebSocketAddress s) serviceName) id
    = (n, inr reply) ->
  verifyChain (update reply) (Some id) = None ->
  getLatestBlock (S fuel) (mkRoster (ms ++ s :: extra)) id w =
  getLatestBlock (S fuel) (mkRoster (ms ++ [s])) id w.
Proof.
  intros F Es Ev.
  destruct (verifyChain_accepts_nonempty _ _ Ev) as (first & rest & Eu & _).
  destruct (pop_nonempty first rest) as [b Ep]. rewrite <- Eu in Ep.
  simpl. rewrite !connect_app.
  change (connect (mkRoster (s :: extra)))
    with (mkConnection (getWebSocketAddress s) serviceName :: connect (mkRoster extra)).
  change (connect (mkRoster [s]))
    with [mkConnection (getWebSocketAddress s) serviceName].
  rewrite (tryConns_first_verified _ _ _ _ id w w1 n reply b F Es Ev Ep).
  rewrite (tryConns_first_verified _ _ _ _ id w w1 n reply b F Es Ev Ep).
  reflexivity.
Qed.

(** X10: the single-target calls talk to the first roster member only:
    rosters with the same first member give the same result, so these calls
    never fall back on another member. *)
Theorem single_target_first_member_only (r1 r2 : Roster) :
  hd_error (members r1) = hd_error (members r2) ->
  (forall id (w : World Net), getUpdateChain r1 id w = getUpdateChain r2 id w) /\
  (forall bid (w : World Net), getSkipBlock r1 bid w = getSkipBlock r2 bid w) /\
  (forall gen idx (w : World Net),
      getSkipBlockByIndex r1 gen idx w = getSkipBlockByIndex r2 gen idx w).
Proof.
  intros E. apply connect_head in E.
  unfold getUpdateChain, getSkipBlock, getSkipBlockByIndex.
  destruct (connect r1) as [|c1 cs1], (connect r2) as [|c2 cs2];
    simpl in E; try discriminate; [easy|].
  injection E as ->. easy.
Qed.

Lemma failRun_empty_replies (conns : list Connection) (id : Buffer) (w : World Net) :
  (forall n c, snd (sendGetUpdateChain n c id) = inr (mkGetUpdateChainReply [])) ->
  exists w',
    failRun conns id w = Some w' /\
    logged w' =
      logged w ++
      repeat [LogString "Received corrupted skipchain with error:"; LogError errNoBlock]
             (List.length conns).
Proof.
  intros Es. revert w; induction conns as [|c conns IH]; intros w.
  - exists w. simpl. now rewrite app_nil_r.
  - simpl. specialize (Es (net w) c) as E.
    destruct (sendGetUpdateChain (net w) c id) as [n res]. simpl in E. subst res.
    simpl. destruct (IH (lvl3 n w
      [LogString "Received corrupted skipchain with error:"; LogError errNoBlock]))
      as (w' & F & L).
    exists w'. split; [exact F|].
    rewrite L. unfold lvl3. simpl. now rewrite <- app_assoc.
Qed.

(** X11: an empty reply counts as a failed member.  When every member
    answers the root with an empty chain, [getLatestBlock] is rejected with
    "no conode has the latest block", having called the logger once per
    member with "Received corrupted skipchain with error:" and the verifier's
    error "no block returned in the chain". *)
Theorem getLatestBlock_empty_replies
    (fuel : nat) (r : Roster) (id : Buffer) (w : World Net) :
  (forall n c, snd (sendGetUpdateChain n c id) = inr (mkGetUpdateChainReply [])) ->
  exists w',
    getLatestBlock (S fuel) r id w = Some (w', Rejected errNoConode) /\
    logged w' =
      logged w ++
      repeat [LogString "Received corrupted skipchain with error:"; LogError errNoBlock]
             (List.length (members r)).
Proof.
  intros Es.
  destruct (failRun_empty_replies (connect r) id w Es) as (w' & F & L).
  exists w'. split.
  - simpl. now apply tryConns_all_fail.
  - rewrite L. unfold connect. now rewrite length_map.
Qed.

End ClientMore.

(** ** Instances of the further properties *)

Lemma verifyChain_sound_witness :
  @adjacentLinked sampleHashing sampleSigning block30 block31 /\
  @computeHash sampleHashing block31 = hash block31.
Proof.
  apply (@verifyChain_sound sampleHashing sampleSigning
           [block30; block31] (Some [x47; x30]) 0 block30 block31);
    reflexivity.
Defined.

Lemma verifyChain_reports_corrupt_block_witness :
  @verifyChain sampleHashing sampleSigning [block10; block11; forged; block12]
    (Some [x47; x10]) = Some errBlockHash.
Proof.
  apply (@verifyChain_reports_corrupt_block sampleHashing sampleSigning
           [block10] [block12] block11 forged (Some [x47; x10])).
  - reflexivity.
  - discriminate.
Defined.

Lemma verifyChain_leaf_only_last_witness :
  @verifyChain sampleHashing sampleSigning [block30; block31; block30] None <> None.
Proof.
  apply (@verifyChain_leaf_only_last sampleHashing sampleSigning
           [block30] [] block31 block30 None).
  reflexivity.
Defined.

Lemma verifyChain_ignores_last_links_witness :
  @verifyChain sampleHashing sampleSigning [block10; block11leaf] (Some [x47; x10])
  = @verifyChain sampleHashing sampleSigning [block10; block11] (Some [x47; x10]).
Proof.
  symmetry.
  apply (@verifyChain_ignores_last_links sampleHashing sampleSigning
           [block10] block11leaf [linkTo12] (Some [x47; x10])).
  intros b l. reflexivity.
Defined.

Lemma getUpdateChain_resolved_witness :
  (exists c cs,
      connect rosterC = c :: cs /\
      @sendGetUpdateChain Requests (scripted tableFailover) [] c [x47; x30]
      = ([("ws://c:7771", [x47; x30])], replies [block30; block31])) /\
  (exists first rest,
      [block30; block31] = first :: rest /\
      @computeHash sampleHashing first = [x47; x30]) /\
  (forall i prev curr,
      nth_error [block30; block31] i = Some prev ->
      nth_error [block30; block31] (S i) = Some curr ->
      @adjacentLinked sampleHashing sampleSigning prev curr /\
      @computeHash sampleHashing curr = hash curr) /\
  @nil LogLine = [].
Proof.
  apply (@getUpdateChain_resolved sampleHashing sampleSigning Requests
           (scripted tableFailover) rosterC [x47; x30] world0
           (mkWorld [("ws://c:7771", [x47; x30])] []) [block30; block31]).
  reflexivity.
Defined.

Lemma getLatestBlock_after_getUpdateChain_witness :
  @getLatestBlock sampleHashing sampleSigning Requests (scripted tableFailover)
    1 rosterC [x47; x30] world0
  = Some (mkWorld [("ws://c:7771", [x47; x30])] [], Resolved block31).
Proof.
  apply (@getLatestBlock_after_getUpdateChain sampleHashing sampleSigning Requests
           (scripted tableFailover) 0 rosterC [x47; x30] world0
           (mkWorld [("ws://c:7771", [x47; x30])] []) [block30; block31] block31);
    reflexivity.
Defined.

Lemma getLatestBlock_ignores_later_members_witness :
  @getLatestBlock sampleHashing sampleSigning Requests (scripted tableFailover)
    1 rosterABCD [x47; x30] world0
  = @getLatestBlock sampleHashing sampleSigning Requests (scripted tableFailover)
      1 rosterABC [x47; x30] world0.
Proof.
  apply (@getLatestBlock_ignores_later_members sampleHashing sampleSigning Requests
           (scripted tableFailover) 0 [serverA; serverB] [serverD] serverC
           [x47; x30] world0 worldAfterAB
           [("ws://a:7771", [x47; x30]); ("ws://b:7771", [x47; x30]);
            ("ws://c:7771", [x47; x30])]
           (mkGetUpdateChainReply [block30; block31]));
    reflexivity.
Defined.

Lemma single_target_first_member_only_witness :
  @getUpdateChain sampleHashing sampleSigning Requests (scripted tableStranded)
    rosterA [x47; x20] world0
  = @getUpdateChain sampleHashing sampleSigning Requests (scripted tableStranded)
      rosterAB [x47; x20] world0.
Proof.
  apply (proj1 (@single_target_first_member_only sampleHashing sampleSigning Requests
                  (scripted tableStranded) rosterA rosterAB eq_refl)).
Defined.

Lemma getLatestBlock_empty_replies_witness :
  exists w',
    @getLatestBlock sampleHashing sampleSigning Requests (scripted tableEmpty)
      1 rosterAB [x47; x20] world0 = Some (w', Rejected errNoConode) /\
    logged w' =
      [[LogString "Received corrupted skipchain with error:"; LogError errNoBlock];
       [LogString "Received corrupted skipchain with error:"; LogError errNoBlock]].
Proof.
  apply (@getLatestBlock_empty_replies sampleHashing sampleSigning Requests
           (scripted tableEmpty) 0 rosterAB [x47; x20] world0).
  intros n c. reflexivity.
Defined.
